(** * react_hackernews: the stories reducer, the semi-persistent search term
      and the search form of [src/App.js]

    The JavaScript of [src/App.js] is embedded shallowly:
    - the objects the program handles (stories, the reducer's state, actions)
      are records, and the few places where JavaScript is dynamically typed
      (an action's [type] and [payload], a story's [objectID], the [data]
      field that [STORIES_FETCH_SUCCESS] overwrites with whatever the
      response carried) keep a small type of JavaScript values;
    - [throw] and the [TypeError]s of property access are the [Threw] case of
      a result type;
    - [localStorage] is a finite map from strings to strings;
    - the component [App] with its hooks is a transition system on the page
      and the storage, one step per event. *)

From stdpp Require Import base option list strings gmap.

Open Scope string_scope.

(** ** JavaScript values *)

(** Primitive values.  Numbers are the integers (the identifiers of the
    API are strings; a response body is JSON, which has no NaN); objects
    compared by reference are not needed as identifiers. *)
Inductive prim : Type :=
  | PUndefined
  | PNull
  | PBool (b : bool)
  | PNum (n : Z)
  | PStr (s : string).

#[global] Instance prim_eq_dec : EqDecision prim.
Proof. solve_decision. Defined.

(** [a === b] on primitive values: same type and same value. *)
Definition strict_eq (a b : prim) : bool :=
  match a, b with
  | PUndefined, PUndefined => true
  | PNull, PNull => true
  | PBool x, PBool y => Bool.eqb x y
  | PNum x, PNum y => Z.eqb x y
  | PStr x, PStr y => String.eqb x y
  | _, _ => false
  end.

(** [a !== b] *)
Definition strict_neq (a b : prim) : bool := negb (strict_eq a b).

(** A story as the list and the item row read it: [item.objectID],
    [item.url], [item.title], [item.author], [item.num_comments],
    [item.points].  A record without identifier has [objectID] undefined. *)
Record story : Type := Story {
  objectID : prim;
  title : string;
  story_url : string;
  author : string;
  num_comments : Z;
  points : Z
}.

(** What a payload or the [data] field can hold: a primitive (an action
    without payload has [payload] undefined), an array of story objects
    ([result.data.hits]) or one story (the item of a row).  The elements
    of an array are story objects: an array with a null or undefined
    element, on which [story.objectID] itself would throw, is not among
    these values. *)
Inductive value : Type :=
  | VPrim (p : prim)
  | VArray (l : list story)
  | VObject (s : story).

(** ** Exceptions *)

Inductive exn : Type :=
  | Error       (* [throw new Error()] *)
  | TypeError.  (* a property of undefined or null, a call of a non-function *)

Inductive result (A : Type) : Type :=
  | Returned (a : A)
  | Threw (e : exn).
Arguments Returned {A} a.
Arguments Threw {A} e.

Definition bind {A B : Type} (r : result A) (k : A -> result B) : result B :=
  match r with
  | Returned a => k a
  | Threw e => Threw e
  end.

Notation "x <-! r ; k" := (bind r (fun x => k))
  (at level 100, r at next level, right associativity).

(** [Array.prototype.filter] with a callback that may throw: the callback is
    called on the elements from left to right and the first exception
    leaves the loop; on an empty array it is never called. *)
Fixpoint Array_filter {A : Type} (f : A -> result bool) (l : list A)
  : result (list A) :=
  match l with
  | [] => Returned []
  | x :: l' =>
      keep <-! f x;
      rest <-! Array_filter f l';
      Returned (if keep then x :: rest else rest)
  end.

(** [v.objectID]: a [TypeError] on undefined and null, undefined on the
    other primitives and on arrays, the field on a story. *)
Definition get_objectID (v : value) : result prim :=
  match v with
  | VPrim PUndefined | VPrim PNull => Threw TypeError
  | VPrim _ => Returned PUndefined
  | VArray _ => Returned PUndefined
  | VObject s => Returned (objectID s)
  end.

(** [v.filter(f)]: only arrays have the method; on undefined and null the
    property access throws, on the other values [v.filter] is undefined
    and the call throws. *)
Definition call_filter (v : value) (f : story -> result bool) : result value :=
  match v with
  | VArray l => kept <-! Array_filter f l; Returned (VArray kept)
  | VPrim _ | VObject _ => Threw TypeError
  end.

(** ** The reducer *)

(** [{ data, isLoading, isError }] *)
Record state : Type := State {
  data : value;
  isLoading : bool;
  isError : bool
}.

(** [{ type, payload }] *)
Record action : Type := Action {
  type : prim;
  payload : value
}.

(** [storiesReducer], lines 28-59.  The [switch] compares [action.type]
    with [===] against the four labels, top to bottom; [...state] keeps the
    fields that the object literal does not list. *)
Definition storiesReducer (st : state) (act : action) : result state :=
  if strict_eq (type act) (PStr "STORIES_FETCH_INIT") then
    Returned {| data := data st; isLoading := true; isError := false |}
  else if strict_eq (type act) (PStr "STORIES_FETCH_SUCCESS") then
    Returned {| data := payload act; isLoading := false; isError := false |}
  else if strict_eq (type act) (PStr "STORIES_FETCH_FAILURE") then
    Returned {| data := data st; isLoading := false; isError := true |}
  else if strict_eq (type act) (PStr "REMOVE_STORY") then
    kept <-! call_filter (data st)
               (fun story =>
                  id <-! get_objectID (payload act);
                  Returned (strict_neq id (objectID story)));
    Returned {| data := kept; isLoading := isLoading st; isError := isError st |}
  else
    Threw Error.

(** The four actions that [App] dispatches. *)
Definition fetch_init : action :=
  Action (PStr "STORIES_FETCH_INIT") (VPrim PUndefined).
Definition fetch_success (hits : value) : action :=
  Action (PStr "STORIES_FETCH_SUCCESS") hits.
Definition fetch_failure : action :=
  Action (PStr "STORIES_FETCH_FAILURE") (VPrim PUndefined).
Definition remove_story (item : story) : action :=
  Action (PStr "REMOVE_STORY") (VObject item).

(** ** The semi-persistent state *)

(** [localStorage]: string keys, string values; [getItem] of a key that was
    never set is [null]. *)
Definition localStorage_getItem (key : string) (ls : gmap string string)
  : option string := ls !! key.

Definition localStorage_setItem (key value : string) (ls : gmap string string)
  : gmap string string := <[key := value]> ls.

(** Truthiness of [getItem]'s answer: [null] and the empty string are the
    falsy ones. *)
Definition truthy (v : option string) : bool :=
  match v with
  | None => false
  | Some "" => false
  | Some _ => true
  end.

(** [localStorage.getItem(key) || initialValue], the argument of
    [React.useState] at line 13. *)
Definition useSemiPersistentState_init (key initialValue : string)
    (ls : gmap string string) : string :=
  match localStorage_getItem key ls with
  | Some v => if truthy (Some v) then v else initialValue
  | None => initialValue
  end.

(** The effect of line 19, run after the first render and after every
    render in which [value] (or [key]) changed. *)
Definition useSemiPersistentState_effect (key value : string)
    (ls : gmap string string) : gmap string string :=
  localStorage_setItem key value ls.

(** ** The component *)

Definition API_ENDPOINT : string :=
  "https://hn.algolia.com/api/v1/search?query=".

(** The state that [App] keeps between renders: [searchTerm] (line 63),
    [url] (line 64) and [stories] (line 66). *)
Record app : Type := App {
  searchTerm : string;
  url : string;
  stories : state
}.

(** The page is [None] once React has unmounted the tree because a render
    or the reducer threw; the storage outlives the page. *)
Record browser : Type := Browser {
  page : option app;
  localStorage : gmap string string
}.

(** What [App] and [List] evaluate when they render: [stories.isError],
    [stories.isLoading] and, when not loading, [list.map(...)], which only
    an array has. *)
Definition render (a : app) : result unit :=
  if isLoading (stories a) then Returned tt
  else match data (stories a) with
       | VArray _ => Returned tt
       | VPrim _ | VObject _ => Threw TypeError
       end.

(** [dispatchStories(act)] followed by the render it schedules. *)
Definition dispatchStories (a : app) (act : action) : option app :=
  match storiesReducer (stories a) act with
  | Returned st =>
      let a' := App (searchTerm a) (url a) st in
      match render a' with
      | Returned _ => Some a'
      | Threw _ => None
      end
  | Threw _ => None
  end.

(** [handleSearchInput], line 91: [setSearchTerm(event.target.value)]. *)
Definition handleSearchInput (v : string) (a : app) : app :=
  App v (url a) (stories a).

(** [handleSearchSubmit], lines 94-97: [setUrl] of the template literal. *)
Definition handleSearchSubmit (a : app) : app :=
  App (searchTerm a) (API_ENDPOINT +:+ searchTerm a) (stories a).

(** The submit button of [SearchForm] is [disabled={!searchTerm}]. *)
Definition submit_disabled (a : app) : bool :=
  negb (truthy (Some (searchTerm a))).

(** A fresh load of the page: the first render with the initial values of
    the three hooks, then the two effects in the order of their hooks (the
    write of the term, and [handleFetchStories], which dispatches
    [STORIES_FETCH_INIT] and sends the request). *)
Definition load (ls : gmap string string) : browser :=
  let term := useSemiPersistentState_init "search" "React" ls in
  let a := App term (API_ENDPOINT +:+ term) (State (VArray []) false false) in
  Browser (dispatchStories a fetch_init)
          (useSemiPersistentState_effect "search" term ls).

(** What can happen to a loaded page: the input changes to [v], the form
    is submitted, the Dismiss button of [item] is clicked, the request
    resolves with [result.data.hits] or is rejected.  Responses are not
    matched with requests: neither is the code's (§4.3 of the
    specification), so every order of events is allowed. *)
Inductive event : Type :=
  | SearchInput (v : string)
  | SearchSubmit
  | Dismiss (item : story)
  | FetchResolved (hits : value)
  | FetchRejected.

(** One event.  A state setter called with the value already held makes
    no render and no effect; the effect of the term runs when the term
    changed, the one of the fetch when the URL changed. *)
Definition step (b : browser) (e : event) : browser :=
  match page b with
  | None => b
  | Some a =>
      match e with
      | SearchInput v =>
          if decide (v = searchTerm a) then b
          else Browser (Some (handleSearchInput v a))
                       (useSemiPersistentState_effect "search" v (localStorage b))
      | SearchSubmit =>
          if submit_disabled a then b
          else
            let a' := handleSearchSubmit a in
            if decide (url a' = url a) then b
            else Browser (dispatchStories a' fetch_init) (localStorage b)
      | Dismiss item =>
          Browser (dispatchStories a (remove_story item)) (localStorage b)
      | FetchResolved hits =>
          Browser (dispatchStories a (fetch_success hits)) (localStorage b)
      | FetchRejected =>
          Browser (dispatchStories a fetch_failure) (localStorage b)
      end
  end.

(** A sequence of events, oldest first. *)
Definition run (b : browser) (evs : list event) : browser :=
  foldl step b evs.

(** ** What the page shows *)

(** One row of the list, as [Item] (lines 157-179) builds it: the [key],
    the link ([href] and text), the three other cells, and the event that a
    click on its Dismiss button raises ([onRemoveItem(item)], which is
    [handleRemoveStory], lines 100-105). *)
Record row : Type := Row {
  row_key : prim;
  link_href : string;
  link_text : string;
  row_author : string;
  row_comments : Z;
  row_points : Z;
  on_dismiss : event
}.

Definition Item (item : story) : row :=
  Row (objectID item) (story_url item) (title item) (author item)
      (num_comments item) (points item) (Dismiss item).

(** [List], lines 149-154: [list.map], one [Item] per story and in the
    order of the array; a [TypeError] on what has no [map]. *)
Definition List (l : value) : result (list row) :=
  match l with
  | VArray stories => Returned (Item <$> stories)
  | VPrim _ | VObject _ => Threw TypeError
  end.

(** Below the rule, [App] shows the loading line or the list. *)
Inductive content : Type :=
  | Loading
  | Listing (rows : list row).

(** What [App] returns, lines 107-125: the value of the input and the
    [disabled] attribute of the button ([SearchForm], lines 129-147),
    whether the line "Something went wrong ..." is there, and the
    content. *)
Record view : Type := View {
  input_value : string;
  button_disabled : bool;
  error_message : bool;
  body : content
}.

Definition App_view (a : app) : result view :=
  shown <-! (if isLoading (stories a) then Returned Loading
             else rows <-! List (data (stories a)); Returned (Listing rows));
  Returned (View (searchTerm a) (submit_disabled a) (isError (stories a)) shown).

(** ** Definitions of the statements *)

(** The term of the last submission that the form accepted, in a sequence
    of events that starts with the term [cur] in the input and the term
    [com] submitted: a submission of the empty term is not one. *)
Fixpoint committed_term (cur com : string) (evs : list event) : string :=
  match evs with
  | [] => com
  | SearchInput v :: evs' => committed_term v com evs'
  | SearchSubmit :: evs' =>
      committed_term cur (if decide (cur = "") then com else cur) evs'
  | _ :: evs' => committed_term cur com evs'
  end.

(** The events that are not the answer to a request. *)
Definition no_response (e : event) : Prop :=
  match e with
  | FetchResolved _ | FetchRejected => False
  | _ => True
  end.

(** The payloads on which [payload.objectID] throws. *)
Definition nullish (p : value) : Prop :=
  p = VPrim PUndefined ∨ p = VPrim PNull.

(** The collection minus the elements whose identifier equals [X], written
    from the words of the specification (§8) and independently of
    [Array_filter]: walk the collection and drop what carries [X]. *)
Fixpoint without_id (X : prim) (l : list story) : list story :=
  match l with
  | [] => []
  | s :: l' =>
      if decide (objectID s = X) then without_id X l'
      else s :: without_id X l'
  end.

(** The term a fresh load starts from. *)
Definition initial_term (ls : gmap string string) : string :=
  useSemiPersistentState_init "search" "React" ls.

(** The most recent change of the term in a sequence of events: the value
    of the last [SearchInput], or the term [t] held before when there is
    none. *)
Fixpoint last_term (t : string) (evs : list event) : string :=
  match evs with
  | [] => t
  | SearchInput v :: evs' => last_term v evs'
  | _ :: evs' => last_term t evs'
  end.

(** The storage holds the term of the page. *)
Definition synced (b : browser) : Prop :=
  ∀ a, page b = Some a -> localStorage b !! "search" = Some (searchTerm a).

(** The events whose response, if any, carries an array of stories. *)
Definition array_hits (e : event) : Prop :=
  match e with
  | FetchResolved (VArray _) => True
  | FetchResolved _ => False
  | _ => True
  end.

(** The page is there and its collection is an array. *)
Definition holds_array (b : browser) : Prop :=
  ∃ a l, page b = Some a ∧ data (stories a) = VArray l.

(** * Properties *)

Example reducer_init_ex :
  storiesReducer (State (VArray []) false true)
                 (Action (PStr "STORIES_FETCH_INIT") (VPrim PUndefined))
  = Returned (State (VArray []) true false).
Proof. reflexivity. Qed.

(** ** Strict equality *)

Lemma strict_eq_iff (a b : prim) : strict_eq a b = true <-> a = b.
Proof.
  destruct a as [| |x|x|x], b as [| |y|y|y]; simpl;
    try (split; [discriminate | congruence]); try tauto.
  - rewrite Bool.eqb_true_iff. split; congruence.
  - rewrite Z.eqb_eq. split; congruence.
  - rewrite String.eqb_eq. split; congruence.
Qed.

Lemma strict_eq_refl (a : prim) : strict_eq a a = true.
Proof. by apply strict_eq_iff. Qed.

Lemma strict_eq_ne (a b : prim) : a ≠ b -> strict_eq a b = false.
Proof.
  intros Hne. destruct (strict_eq a b) eqn:E; [|done].
  by apply strict_eq_iff in E.
Qed.

Lemma strict_neq_iff (a b : prim) : strict_neq a b = true <-> a ≠ b.
Proof.
  unfold strict_neq. rewrite Bool.negb_true_iff. split.
  - intros E ->. by rewrite strict_eq_refl in E.
  - apply strict_eq_ne.
Qed.

(** ** The collection without an identifier *)

(** The callback of [REMOVE_STORY] for a payload that is an item never
    throws, and [filter] with it computes [without_id]. *)
Lemma Array_filter_remove (item : story) (l : list story) :
  Array_filter
    (fun story =>
       id <-! get_objectID (VObject item);
       Returned (strict_neq id (objectID story))) l
  = Returned (without_id (objectID item) l).
Proof.
  induction l as [|s l IH]; [reflexivity|].
  cbn [Array_filter without_id]. rewrite IH. cbn.
  destruct (decide (objectID s = objectID item)) as [E|E].
  - rewrite E. unfold strict_neq. by rewrite strict_eq_refl.
  - replace (strict_neq (objectID item) (objectID s)) with true; [done|].
    symmetry. apply strict_neq_iff. congruence.
Qed.

Lemma reducer_remove (l : list story) (ld er : bool) (item : story) :
  storiesReducer (State (VArray l) ld er) (remove_story item)
  = Returned (State (VArray (without_id (objectID item) l)) ld er).
Proof.
  unfold storiesReducer, remove_story. cbn [type payload data strict_eq].
  cbn [String.eqb Ascii.eqb Bool.eqb]. cbn [call_filter].
  by rewrite Array_filter_remove.
Qed.

Lemma without_id_absent (X : prim) (l : list story) :
  Forall (fun s => objectID s ≠ X) l -> without_id X l = l.
Proof.
  induction 1 as [|s l Hs _ IH]; [done|].
  cbn. rewrite decide_False by done. by rewrite IH.
Qed.

Lemma without_id_Forall (X : prim) (l : list story) :
  Forall (fun s => objectID s ≠ X) (without_id X l).
Proof.
  induction l as [|s l IH]; cbn; [constructor|].
  case_decide; [done|]. by constructor.
Qed.

Lemma without_id_sublist (X : prim) (l : list story) :
  without_id X l `sublist_of` l.
Proof.
  induction l as [|s l IH]; cbn; [constructor|].
  case_decide; [by apply sublist_cons | by apply sublist_skip].
Qed.

(** Every selection of stories of [l], in the order of [l], that avoids the
    identifier [X] is a selection of [without_id X l]: nothing but the
    stories carrying [X] was dropped, and nothing was reordered. *)
Lemma without_id_greatest (X : prim) (l k : list story) :
  k `sublist_of` l -> Forall (fun s => objectID s ≠ X) k ->
  k `sublist_of` without_id X l.
Proof.
  induction 1 as [|s k l Hkl IH|s k l Hkl IH]; intros Hk; cbn.
  - constructor.
  - apply Forall_cons in Hk as [Hs Hk].
    rewrite decide_False by done. apply sublist_skip. by apply IH.
  - case_decide; [by apply IH|]. apply sublist_cons. by apply IH.
Qed.

Lemma without_id_elem_of (X : prim) (l : list story) (s : story) :
  s ∈ without_id X l <-> s ∈ l ∧ objectID s ≠ X.
Proof.
  induction l as [|t l IH]; cbn.
  - rewrite elem_of_nil. tauto.
  - case_decide as E; rewrite ?elem_of_cons, IH.
    + split; [tauto|]. intros [[->|?] ?]; tauto.
    + split; [intros [->|[? ?]]; auto | tauto].
Qed.

(** ** The transitions of the reducer *)

(** C6.  Fetch-start: from every state, an action of type
    [STORIES_FETCH_INIT] (whatever its payload) returns the state with the
    loading flag true, the error flag false and the collection of the state
    it started from. *)
Theorem fetch_init_sets_loading (st : state) (p : value) :
  storiesReducer st (Action (PStr "STORIES_FETCH_INIT") p)
  = Returned {| data := data st; isLoading := true; isError := false |}.
Proof. reflexivity. Qed.

(** C1.  Fetch-success: from every state and for every payload [P], an
    action of type [STORIES_FETCH_SUCCESS] returns the state whose
    collection is [P] itself (the same elements in the same order, nothing
    of the previous collection kept), with both flags false. *)
Theorem fetch_success_replaces (st : state) (P : value) :
  storiesReducer st (Action (PStr "STORIES_FETCH_SUCCESS") P)
  = Returned {| data := P; isLoading := false; isError := false |}.
Proof. reflexivity. Qed.

(** C2.  Fetch-failure: from every state, an action of type
    [STORIES_FETCH_FAILURE] returns the state with the loading flag false,
    the error flag true and the collection it held before. *)
Theorem fetch_failure_keeps_collection (st : state) (p : value) :
  storiesReducer st (Action (PStr "STORIES_FETCH_FAILURE") p)
  = Returned {| data := data st; isLoading := false; isError := true |}.
Proof. reflexivity. Qed.

(** C3.  Remove: in a state whose collection is [l], removing an item
    returns the state whose collection is [l] minus the elements whose
    [objectID] equals the item's, with the loading and error flags as they
    were; when no element of [l] has that identifier the state is returned
    unchanged. *)
Theorem remove_story_minus (l : list story) (ld er : bool) (item : story) :
  storiesReducer (State (VArray l) ld er) (remove_story item)
  = Returned (State (VArray (without_id (objectID item) l)) ld er)
  ∧ (Forall (fun s => objectID s ≠ objectID item) l ->
     storiesReducer (State (VArray l) ld er) (remove_story item)
     = Returned (State (VArray l) ld er)).
Proof.
  split; [apply reducer_remove|].
  intros Habsent. rewrite reducer_remove. by rewrite without_id_absent.
Qed.

(** The example of §8 of the specification: from [{id:1,title:"A"}],
    [{id:2,title:"B"}], removing the first leaves the second. *)
Example remove_story_example :
  let A := Story (PNum 1) "A" "" "" 0 0 in
  let B := Story (PNum 2) "B" "" "" 0 0 in
  storiesReducer (State (VArray [A; B]) false false) (remove_story A)
  = Returned (State (VArray [B]) false false).
Proof. reflexivity. Qed.

(** With identifiers that are pairwise distinct, "the element whose
    identifier equals X" is one element: the collection shrinks by one
    exactly when the identifier is present. *)
Lemma without_id_length_NoDup (X : prim) (l : list story) :
  NoDup (objectID <$> l) -> X ∈ objectID <$> l ->
  S (length (without_id X l)) = length l.
Proof.
  induction l as [|s l IH]; cbn; intros Hnd Hin.
  - by apply elem_of_nil in Hin.
  - apply NoDup_cons in Hnd as [Hs Hnd]. case_decide as E.
    + subst X. rewrite without_id_absent; [done|].
      apply Forall_forall. intros t Ht Heq. apply Hs. rewrite <- Heq.
      by apply list_elem_of_fmap_2.
    + cbn. f_equal. apply IH; [done|].
      apply elem_of_cons in Hin as [->|]; done.
Qed.

(** C10.  Remove with repeated identifiers: whatever the collection [l]
    (several stories may share an [objectID]), the collection [l'] after
    removing an item holds no story with the item's identifier, is made of
    stories of [l] in the order they had in [l], and lost nothing else:
    every selection of [l] in order that avoids the identifier is still a
    selection of [l']. *)
Theorem remove_story_all_occurrences
    (l : list story) (ld er : bool) (item : story) :
  ∃ l' : list story,
    storiesReducer (State (VArray l) ld er) (remove_story item)
    = Returned (State (VArray l') ld er)
    ∧ Forall (fun s => objectID s ≠ objectID item) l'
    ∧ l' `sublist_of` l
    ∧ ∀ k, k `sublist_of` l ->
           Forall (fun s => objectID s ≠ objectID item) k ->
           k `sublist_of` l'.
Proof.
  exists (without_id (objectID item) l). split; [apply reducer_remove|].
  split; [apply without_id_Forall|].
  split; [apply without_id_sublist|].
  intros k. apply without_id_greatest.
Qed.

Example remove_story_duplicates :
  let A := Story (PStr "7") "A" "" "" 0 0 in
  let B := Story (PStr "8") "B" "" "" 0 0 in
  let A' := Story (PStr "7") "A again" "" "" 0 0 in
  let C := Story (PStr "9") "C" "" "" 0 0 in
  storiesReducer (State (VArray [A; B; A'; C]) false false) (remove_story A')
  = Returned (State (VArray [B; C]) false false).
Proof. reflexivity. Qed.

(** C7.  Every other action: when [action.type] is none of the four
    labels, the reducer throws [Error] from every state, and returns no
    state. *)
Theorem unknown_action_throws (st : state) (act : action) :
  type act ≠ PStr "STORIES_FETCH_INIT" ->
  type act ≠ PStr "STORIES_FETCH_SUCCESS" ->
  type act ≠ PStr "STORIES_FETCH_FAILURE" ->
  type act ≠ PStr "REMOVE_STORY" ->
  storiesReducer st act = Threw Error.
Proof.
  intros H1 H2 H3 H4. unfold storiesReducer.
  by rewrite !strict_eq_ne.
Qed.

Lemma unknown_action_throws_witness :
  storiesReducer (State (VArray []) false false)
                 (Action (PStr "STORIES_FETCH") (VPrim PUndefined))
  = Threw Error
  ∧ storiesReducer (State (VPrim PUndefined) true true)
                   (Action PUndefined (VPrim PUndefined))
    = Threw Error.
Proof.
  split; apply unknown_action_throws; discriminate.
Defined.

(** A payload that is not an item reaches the property access of the
    callback: with no payload the first call throws, and on an empty
    collection there is no call. *)
Lemma remove_without_payload (s : story) (l : list story) (ld er : bool) :
  storiesReducer (State (VArray (s :: l)) ld er)
                 (Action (PStr "REMOVE_STORY") (VPrim PUndefined))
  = Threw TypeError
  ∧ storiesReducer (State (VArray []) ld er)
                   (Action (PStr "REMOVE_STORY") (VPrim PUndefined))
    = Returned (State (VArray []) ld er).
Proof. split; reflexivity. Qed.

(** ** The semi-persistent state *)

(** C8.  Nothing stored under the key: the initial value is the default
    that was supplied (a value is produced, nothing fails). *)
Theorem absent_yields_default (key initialValue : string)
    (ls : gmap string string) :
  localStorage_getItem key ls = None ->
  useSemiPersistentState_init key initialValue ls = initialValue.
Proof. unfold useSemiPersistentState_init. by intros ->. Qed.

Lemma absent_yields_default_witness :
  useSemiPersistentState_init "search" "React" ∅ = "React".
Proof. apply absent_yields_default. reflexivity. Defined.

Lemma falsy_stored_yields_default (key initialValue : string)
    (ls : gmap string string) :
  localStorage_getItem key ls = Some "" ->
  useSemiPersistentState_init key initialValue ls = initialValue.
Proof. unfold useSemiPersistentState_init. by intros ->. Qed.

(** C9.  The empty string stored under the key: the initial value is the
    default, not the stored empty string, which is what the same read gives
    once the key is deleted. *)
Theorem empty_string_yields_default (key initialValue : string)
    (ls : gmap string string) :
  localStorage_getItem key ls = Some "" ->
  useSemiPersistentState_init key initialValue ls = initialValue
  ∧ useSemiPersistentState_init key initialValue ls
    = useSemiPersistentState_init key initialValue (delete key ls).
Proof.
  unfold useSemiPersistentState_init, localStorage_getItem.
  intros ->. by rewrite lookup_delete_eq.
Qed.

Lemma empty_string_yields_default_witness :
  useSemiPersistentState_init "search" "React" {["search" := ""]} = "React"
  ∧ useSemiPersistentState_init "search" "React" {["search" := ""]}
    = useSemiPersistentState_init "search" "React"
        (delete "search" {["search" := ""]}).
Proof.
  apply empty_string_yields_default.
  unfold localStorage_getItem. apply lookup_singleton_eq.
Defined.

(** Every other stored string is what the state starts from. *)
Lemma stored_yields_stored (key initialValue v : string)
    (ls : gmap string string) :
  localStorage_getItem key ls = Some v -> v ≠ "" ->
  useSemiPersistentState_init key initialValue ls = v.
Proof.
  unfold useSemiPersistentState_init. intros -> Hv.
  destruct v; [done|reflexivity].
Qed.

(** ** The page *)

Lemma truthy_nonempty (s : string) : s ≠ "" -> truthy (Some s) = true.
Proof. by destruct s. Qed.

(** A render while loading does not look at the collection; so the
    dispatch of [STORIES_FETCH_INIT] always leaves a page. *)
Lemma dispatch_fetch_init (a : app) :
  dispatchStories a fetch_init
  = Some (App (searchTerm a) (url a) (State (data (stories a)) true false)).
Proof. reflexivity. Qed.

(** C4.  Submitting the form with a non-empty term [T]: the handler sets
    the URL to the endpoint followed by [T], character for character, and
    after the event the page holds that URL (and still the term [T]). *)
Theorem submit_commits_endpoint_term
    (a : app) (ls : gmap string string) (T : string) :
  searchTerm a = T -> T ≠ "" ->
  url (handleSearchSubmit a)
  = "https://hn.algolia.com/api/v1/search?query=" +:+ T
  ∧ ∃ a' : app,
      page (step (Browser (Some a) ls) SearchSubmit) = Some a'
      ∧ url a' = "https://hn.algolia.com/api/v1/search?query=" +:+ T
      ∧ searchTerm a' = T.
Proof.
  intros HT Hne. split; [by rewrite <- HT|].
  unfold step. cbn [page localStorage]. unfold submit_disabled.
  rewrite HT, truthy_nonempty by done. cbn [negb].
  case_decide as Hurl.
  - exists a. split; [done|]. split; [|done].
    rewrite <- Hurl. cbn. by rewrite HT.
  - rewrite dispatch_fetch_init. eexists. split; [done|].
    cbn. by rewrite HT.
Qed.

Lemma submit_commits_endpoint_term_witness :
  let a := App "Redux" (API_ENDPOINT +:+ "React")
               (State (VArray []) false false) in
  url (handleSearchSubmit a)
  = "https://hn.algolia.com/api/v1/search?query=Redux"
  ∧ ∃ a' : app,
      page (step (Browser (Some a) ∅) SearchSubmit) = Some a'
      ∧ url a' = "https://hn.algolia.com/api/v1/search?query=Redux"
      ∧ searchTerm a' = "Redux".
Proof.
  exact (submit_commits_endpoint_term
           (App "Redux" (API_ENDPOINT +:+ "React")
                (State (VArray []) false false))
           ∅ "Redux" eq_refl ltac:(discriminate)).
Defined.

(** With an empty term the button is disabled and the event changes
    nothing. *)
Lemma submit_empty_term (a : app) (ls : gmap string string) :
  searchTerm a = "" ->
  step (Browser (Some a) ls) SearchSubmit = Browser (Some a) ls.
Proof. intros H. unfold step, submit_disabled. cbn. by rewrite H. Qed.

(** ** The persisted term along a run *)

Lemma load_page (ls : gmap string string) :
  load ls
  = Browser (Some (App (initial_term ls) (API_ENDPOINT +:+ initial_term ls)
                       (State (VArray []) true false)))
            (<["search" := initial_term ls]> ls).
Proof. reflexivity. Qed.

Lemma dispatch_searchTerm (a a' : app) (act : action) :
  dispatchStories a act = Some a' ->
  searchTerm a' = searchTerm a ∧ url a' = url a.
Proof.
  unfold dispatchStories. destruct (storiesReducer _ _) as [st|]; [|done].
  destruct (render _); [|done]. by intros [= <-].
Qed.

Ltac dispatch_keeps_term :=
  let Hd := fresh "Hd" in
  cbn [page]; intros Hd; by apply dispatch_searchTerm in Hd as [-> _].

(** What one event does to the term of a page that survives it. *)
Lemma step_searchTerm (b : browser) (e : event) (a a' : app) :
  page b = Some a -> page (step b e) = Some a' ->
  searchTerm a' = last_term (searchTerm a) [e].
Proof.
  intros Hb. unfold step. rewrite Hb.
  destruct e as [v| |item|hits|]; cbn [last_term].
  - case_decide as Hv; cbn [page].
    + rewrite Hb. intros [= <-]. done.
    + by intros [= <-].
  - destruct (submit_disabled a); [rewrite Hb; by intros [= <-]|].
    case_decide as Hurl; [rewrite Hb; by intros [= <-]|].
    dispatch_keeps_term.
  - dispatch_keeps_term.
  - dispatch_keeps_term.
  - dispatch_keeps_term.
Qed.

Lemma step_localStorage (b : browser) (e : event) (a : app) :
  page b = Some a ->
  localStorage (step b e)
  = match e with
    | SearchInput v =>
        if decide (v = searchTerm a) then localStorage b
        else <["search" := v]> (localStorage b)
    | _ => localStorage b
    end.
Proof.
  intros Hb. unfold step. rewrite Hb.
  destruct e; try reflexivity.
  - by case_decide.
  - destruct (submit_disabled a); [done|]. by case_decide.
Qed.

Lemma step_unmounted (b : browser) (e : event) :
  page b = None -> step b e = b.
Proof. unfold step. by intros ->. Qed.

Lemma run_unmounted (b : browser) (evs : list event) :
  page b = None -> run b evs = b.
Proof.
  revert b. induction evs as [|e evs IH]; intros b Hb; [done|].
  cbn. rewrite step_unmounted by done. by apply IH.
Qed.

Lemma step_synced (b : browser) (e : event) :
  synced b -> synced (step b e).
Proof.
  intros Hs a' Ha'. destruct (page b) as [a|] eqn:Hb.
  - rewrite (step_localStorage b e a Hb).
    rewrite (step_searchTerm b e a a' Hb Ha').
    destruct e as [v| |item|hits|]; cbn [last_term]; try by apply Hs.
    case_decide as Hv; [rewrite Hv; by apply Hs|].
    apply lookup_insert_eq.
  - rewrite step_unmounted in Ha' by done. congruence.
Qed.

Lemma run_synced (b : browser) (evs : list event) :
  synced b -> synced (run b evs).
Proof.
  revert b. induction evs as [|e evs IH]; intros b Hs; [done|].
  cbn. apply IH. by apply step_synced.
Qed.

Lemma load_synced (ls : gmap string string) : synced (load ls).
Proof.
  rewrite load_page. intros a [= <-]. cbn. apply lookup_insert_eq.
Qed.

(** A page that is still there after the events was there all along, and
    its term is the last one typed. *)
Lemma run_searchTerm (b : browser) (evs : list event) (a' : app) :
  page (run b evs) = Some a' ->
  ∃ a, page b = Some a ∧ searchTerm a' = last_term (searchTerm a) evs.
Proof.
  revert b. induction evs as [|e evs IH]; intros b Hrun.
  - exists a'. by split.
  - cbn in Hrun. destruct (IH _ Hrun) as (a1 & Ha1 & Hterm).
    destruct (page b) as [a|] eqn:Hb.
    + exists a. split; [done|]. rewrite Hterm.
      rewrite (step_searchTerm b e a a1 Hb Ha1).
      by destruct e.
    + rewrite step_unmounted in Ha1 by done. congruence.
Qed.

(** While every response carries an array, no render throws: the page
    survives every sequence of events. *)
Lemma dispatch_holds_array (a : app) (act : action) (l : list story)
    (ls : gmap string string) :
  (∃ ld er, storiesReducer (stories a) act = Returned (State (VArray l) ld er)) ->
  holds_array (Browser (dispatchStories a act) ls).
Proof.
  intros (ld & er & Hred). unfold holds_array, dispatchStories.
  rewrite Hred. unfold render. cbn. destruct ld; eauto.
Qed.

Lemma step_holds_array (b : browser) (e : event) :
  array_hits e -> holds_array b -> holds_array (step b e).
Proof.
  intros He (a & l & Hb & Hl). unfold step. rewrite Hb.
  destruct e as [v| |item|hits|].
  - case_decide; [by exists a, l|]. by exists (handleSearchInput v a), l.
  - destruct (submit_disabled a); [by exists a, l|].
    case_decide; [by exists a, l|].
    apply (dispatch_holds_array _ _ l). cbn. rewrite Hl. eauto.
  - apply (dispatch_holds_array _ _ (without_id (objectID item) l)).
    destruct (stories a) as [d ld er]. cbn in Hl. subst d.
    exists ld, er. apply reducer_remove.
  - destruct hits as [p|l'|s]; cbn in He; try done.
    apply (dispatch_holds_array _ _ l'). eauto.
  - apply (dispatch_holds_array _ _ l). cbn. rewrite Hl. eauto.
Qed.

Lemma run_alive (ls : gmap string string) (evs : list event) :
  Forall array_hits evs -> ∃ a, page (run (load ls) evs) = Some a.
Proof.
  intros Hevs.
  assert (holds_array (run (load ls) evs)) as (a & _ & Ha & _); [|eauto].
  assert (holds_array (load ls)) as Hload.
  { rewrite load_page. by eexists _, []. }
  revert Hload. generalize (load ls).
  induction Hevs as [|e evs He _ IH]; intros b Hb; [done|].
  cbn. apply IH. by apply step_holds_array.
Qed.

(** X17.  The storage follows the input, not the submissions: after every
    sequence of events that leaves a page, the term of the page is the last
    one typed (or the initial one), the storage holds exactly that term
    under "search", and a fresh load starts from it when it is not the
    empty string, and from "React" when it is. *)
Theorem persisted_term_invariant
    (ls0 : gmap string string) (evs : list event) (a : app) :
  page (run (load ls0) evs) = Some a ->
  let b := run (load ls0) evs in
  let t := last_term (initial_term ls0) evs in
  searchTerm a = t
  ∧ localStorage b !! "search" = Some t
  ∧ ∃ a', page (load (localStorage b)) = Some a'
          ∧ searchTerm a' = if decide (t = "") then "React" else t.
Proof.
  intros Ha b t.
  assert (searchTerm a = t) as Hterm.
  { destruct (run_searchTerm _ _ _ Ha) as (a0 & Ha0 & ->).
    rewrite load_page in Ha0. by injection Ha0 as <-. }
  assert (localStorage b !! "search" = Some t) as Hls.
  { rewrite <- Hterm. by apply (run_synced (load ls0) evs (load_synced ls0)). }
  split; [done|]. split; [done|].
  rewrite load_page. eexists. split; [done|]. cbn [searchTerm].
  unfold initial_term.
  case_decide as Ht.
  - apply falsy_stored_yields_default.
    unfold localStorage_getItem. rewrite Hls. by f_equal.
  - by apply stored_yields_stored.
Qed.

Lemma persisted_term_invariant_witness :
  let evs := [SearchInput "Rocq"; SearchSubmit; FetchResolved (VArray []);
              SearchInput ""] in
  let b := run (load {["search" := "Redux"]}) evs in
  let a := App "" (API_ENDPOINT +:+ "Rocq") (State (VArray []) false false) in
  page b = Some a
  ∧ searchTerm a = ""
  ∧ localStorage b !! "search" = Some ""
  ∧ ∃ a', page (load (localStorage b)) = Some a' ∧ searchTerm a' = "React".
Proof.
  intros evs b a.
  assert (page b = Some a) as Hb by (vm_compute; reflexivity).
  split; [exact Hb|].
  exact (persisted_term_invariant {["search" := "Redux"]} evs a Hb).
Defined.

(** ** More on the reducer *)

Lemma get_objectID_cases (p : value) :
  (nullish p ∧ get_objectID p = Threw TypeError)
  ∨ (¬ nullish p ∧ ∃ X, get_objectID p = Returned X).
Proof.
  unfold nullish.
  destruct p as [[| |b|n|s]|l|s]; cbn;
    first [ left; split; [auto | reflexivity]
          | right; split; [intros [?|?]; discriminate | eauto] ].
Qed.

(** [filter] with the callback of [REMOVE_STORY], for any payload whose
    [objectID] can be read. *)
Lemma Array_filter_callback (p : value) (X : prim) (l : list story) :
  get_objectID p = Returned X ->
  Array_filter
    (fun story =>
       id <-! get_objectID p; Returned (strict_neq id (objectID story))) l
  = Returned (without_id X l).
Proof.
  intros Hp. induction l as [|s l IH]; [reflexivity|].
  cbn [Array_filter without_id]. rewrite IH, Hp. cbn.
  destruct (decide (objectID s = X)) as [E|E].
  - rewrite E. unfold strict_neq. by rewrite strict_eq_refl.
  - replace (strict_neq X (objectID s)) with true; [done|].
    symmetry. apply strict_neq_iff. congruence.
Qed.

(** The three outcomes of [REMOVE_STORY]. *)
Lemma reducer_remove_cases (st : state) (p : value) :
  let r := storiesReducer st (Action (PStr "REMOVE_STORY") p) in
  match data st with
  | VArray [] => r = Returned (State (VArray []) (isLoading st) (isError st))
  | VArray (s :: l) =>
      match get_objectID p with
      | Returned X =>
          r = Returned (State (VArray (without_id X (s :: l)))
                              (isLoading st) (isError st))
      | Threw _ => r = Threw TypeError
      end
  | VPrim _ | VObject _ => r = Threw TypeError
  end.
Proof.
  destruct st as [d ld er].
  change (storiesReducer (State d ld er) (Action (PStr "REMOVE_STORY") p))
    with (kept <-! call_filter d
                     (fun story =>
                        id <-! get_objectID p;
                        Returned (strict_neq id (objectID story)));
          Returned (State kept ld er)).
  destruct d as [q|[|s l]|s]; cbn [data isLoading isError];
    try reflexivity.
  destruct (get_objectID_cases p) as [[_ Hp]|[_ [X Hp]]].
  - rewrite Hp. reflexivity.
  - cbn [call_filter]. rewrite (Array_filter_callback p X _ Hp).
    by rewrite Hp.
Qed.

Lemma reducer_remove_not_Error (st : state) (p : value) :
  storiesReducer st (Action (PStr "REMOVE_STORY") p) ≠ Threw Error.
Proof.
  pose proof (reducer_remove_cases st p) as H. cbn zeta in H.
  destruct (data st) as [q|[|s l]|s]; try (rewrite H; discriminate).
  destruct (get_objectID p); rewrite H; discriminate.
Qed.

(** X1.  [Error] is thrown for the unknown types only: the reducer throws
    [Error] exactly when [action.type] is none of the four labels; on the
    four labels it returns a state or, for [REMOVE_STORY], fails with a
    [TypeError]. *)
Theorem Error_iff_unknown_type (st : state) (act : action) :
  storiesReducer st act = Threw Error
  <-> (type act ≠ PStr "STORIES_FETCH_INIT"
       ∧ type act ≠ PStr "STORIES_FETCH_SUCCESS"
       ∧ type act ≠ PStr "STORIES_FETCH_FAILURE"
       ∧ type act ≠ PStr "REMOVE_STORY").
Proof.
  split.
  - intros Hthrow.
    assert (∀ lbl, type act = PStr lbl ->
              storiesReducer st act = storiesReducer st (Action (PStr lbl) (payload act)))
      as Hact by (intros lbl <-; by destruct act).
    repeat split; intros Hty; rewrite (Hact _ Hty) in Hthrow;
      first [ discriminate Hthrow | by apply reducer_remove_not_Error in Hthrow ].
  - intros (H1 & H2 & H3 & H4). unfold storiesReducer.
    by rewrite !strict_eq_ne.
Qed.

(** X2.  When [REMOVE_STORY] fails, for a state whose [data] is a
    primitive, one story object or an array of story objects (the values
    of type [value]; an array holding null or undefined is not one): with
    a [TypeError], exactly when [data] is not an array, or is a non-empty
    array of stories while the payload is undefined or null; in every
    other case a state is returned. *)
Theorem remove_TypeError_iff (st : state) (p : value) :
  let r := storiesReducer st (Action (PStr "REMOVE_STORY") p) in
  (r = Threw TypeError
   <-> ((∀ l, data st ≠ VArray l)
        ∨ ∃ s l, data st = VArray (s :: l) ∧ nullish p))
  ∧ (r = Threw TypeError ∨ ∃ st', r = Returned st').
Proof.
  pose proof (reducer_remove_cases st p) as H. cbn zeta in *.
  destruct (data st) as [q|[|s l]|s] eqn:Hd.
  - rewrite H. split; [|by left]. split; [|done]. intros _. by left.
  - rewrite H. split; [|eauto]. split; [discriminate|].
    intros [Hno|(s & l & [=] & _)]. by destruct (Hno []).
  - destruct (get_objectID_cases p) as [[Hn Hp]|[Hn [X Hp]]];
      rewrite Hp in H; rewrite H.
    + split; [|by left]. split; [|done]. intros _. right. by exists s, l.
    + split; [|eauto]. split; [discriminate|].
      intros [Hno|(s' & l' & _ & Hn')]; [by destruct (Hno (s :: l))|done].
  - rewrite H. split; [|by left]. split; [|done]. intros _. by left.
Qed.

Lemma without_id_app (X : prim) (l1 l2 : list story) :
  without_id X (l1 ++ l2)%list = (without_id X l1 ++ without_id X l2)%list.
Proof.
  induction l1 as [|s l1 IH]; cbn; [done|].
  case_decide; [done|]. cbn. by rewrite IH.
Qed.

Lemma without_id_comm (X Y : prim) (l : list story) :
  without_id X (without_id Y l) = without_id Y (without_id X l).
Proof.
  induction l as [|s l IH]; cbn; [done|].
  destruct (decide (objectID s = Y)) as [EY|EY],
           (decide (objectID s = X)) as [EX|EX]; cbn;
    rewrite ?decide_True, ?decide_False by done; by rewrite ?IH.
Qed.

(** X3.  Removing twice is removing once: in a state whose collection is an
    array, the state that a removal returns is returned unchanged by the
    same removal. *)
Theorem remove_story_idempotent (l : list story) (ld er : bool) (item : story) :
  ∃ st1 : state,
    storiesReducer (State (VArray l) ld er) (remove_story item) = Returned st1
    ∧ storiesReducer st1 (remove_story item) = Returned st1.
Proof.
  eexists. split; [apply reducer_remove|].
  rewrite reducer_remove. rewrite without_id_absent; [done|].
  apply without_id_Forall.
Qed.

(** X4.  Removals commute: dismissing [a] then [b] and dismissing [b] then
    [a] return the same state. *)
Theorem remove_story_commute (l : list story) (ld er : bool) (a b : story) :
  ∃ sa sb st' : state,
    storiesReducer (State (VArray l) ld er) (remove_story a) = Returned sa
    ∧ storiesReducer sa (remove_story b) = Returned st'
    ∧ storiesReducer (State (VArray l) ld er) (remove_story b) = Returned sb
    ∧ storiesReducer sb (remove_story a) = Returned st'.
Proof.
  eexists _, _, _.
  split; [apply reducer_remove|]. split; [apply reducer_remove|].
  split; [apply reducer_remove|].
  rewrite reducer_remove. by rewrite without_id_comm.
Qed.

(** X5.  With pairwise distinct identifiers, removing a story of the
    collection takes out that one element and nothing else: from
    [l1 ++ item :: l2] the collection becomes [l1 ++ l2]. *)
Theorem remove_story_unique (l1 l2 : list story) (ld er : bool) (item : story) :
  NoDup (objectID <$> (l1 ++ item :: l2)%list) ->
  storiesReducer (State (VArray (l1 ++ item :: l2)%list) ld er) (remove_story item)
  = Returned (State (VArray (l1 ++ l2)%list) ld er).
Proof.
  intros Hnd. rewrite reducer_remove. do 3 f_equal.
  rewrite fmap_app, fmap_cons in Hnd.
  apply NoDup_app in Hnd as (_ & Hl1 & Hnd).
  apply NoDup_cons in Hnd as (Hl2 & _).
  rewrite without_id_app. cbn. rewrite decide_True by done.
  rewrite !without_id_absent; [done| |].
  - apply Forall_forall. intros s Hs Heq. apply Hl2. rewrite <- Heq.
    by apply list_elem_of_fmap_2.
  - apply Forall_forall. intros s Hs Heq.
    apply (Hl1 (objectID s)); [by apply list_elem_of_fmap_2|].
    rewrite Heq. apply elem_of_cons. by left.
Qed.

Lemma remove_story_unique_witness :
  let A := Story (PStr "1") "A" "a.org" "ann" 3 10 in
  let B := Story (PStr "2") "B" "b.org" "bob" 0 7 in
  let C := Story (PStr "3") "C" "c.org" "cy" 1 1 in
  storiesReducer (State (VArray ([A] ++ B :: [C])%list) false true) (remove_story B)
  = Returned (State (VArray ([A] ++ [C])%list) false true).
Proof.
  intros A B C. apply remove_story_unique.
  compute_done.
Defined.

(** ** More on the semi-persistent state *)

(** X6.  Write, then read: after the effect has stored [v] under the key,
    the initial value computed from the storage is [v], except for the
    empty string, which gives the default. *)
Theorem stored_value_read_back (key initialValue v : string)
    (ls : gmap string string) :
  useSemiPersistentState_init key initialValue
    (useSemiPersistentState_effect key v ls)
  = if decide (v = "") then initialValue else v.
Proof.
  unfold useSemiPersistentState_init, useSemiPersistentState_effect,
    localStorage_getItem, localStorage_setItem.
  rewrite lookup_insert_eq. by destruct v.
Qed.

Lemma initial_term_nonempty (ls : gmap string string) : initial_term ls ≠ "".
Proof.
  unfold initial_term, useSemiPersistentState_init.
  destruct (localStorage_getItem "search" ls) as [[|c v]|]; done.
Qed.

(** X7.  A load starts from a term that is not empty, so with the submit
    button enabled; and loading again from the storage that a load left
    gives the same page and the same storage. *)
Theorem reload_changes_nothing (ls : gmap string string) :
  load (localStorage (load ls)) = load ls
  ∧ ∃ a, page (load ls) = Some a
         ∧ searchTerm a ≠ "" ∧ submit_disabled a = false.
Proof.
  pose proof (initial_term_nonempty ls) as Hne. split.
  - rewrite !load_page. cbn [localStorage].
    assert (initial_term (<["search" := initial_term ls]> ls) = initial_term ls)
      as ->.
    { unfold initial_term at 1.
      rewrite (stored_yields_stored "search" "React" (initial_term ls));
        [done| |done].
      unfold localStorage_getItem. apply lookup_insert_eq. }
    by rewrite insert_insert_eq.
  - rewrite load_page. eexists. split; [done|]. split; [done|].
    unfold submit_disabled. cbn [searchTerm]. by rewrite truthy_nonempty.
Qed.

(** ** More on the page *)

Lemma render_App_view (a : app) :
  render a = Returned tt <-> ∃ v, App_view a = Returned v.
Proof.
  unfold render, App_view.
  destruct (isLoading (stories a)); cbn; [split; eauto|].
  destruct (data (stories a)); cbn; split; eauto;
    first [discriminate | intros [v [=]]].
Qed.

(** X8.  While every response carries an array of stories, the page
    survives every sequence of events, and what it shows can be
    computed. *)
Theorem page_survives_array_hits (ls : gmap string string) (evs : list event) :
  Forall array_hits evs ->
  ∃ a v, page (run (load ls) evs) = Some a ∧ App_view a = Returned v.
Proof.
  intros Hevs.
  assert (holds_array (run (load ls) evs)) as (a & l & Ha & Hl).
  { assert (holds_array (load ls)) as Hload.
    { rewrite load_page. by eexists _, []. }
    revert Hload. generalize (load ls).
    induction Hevs as [|e evs He _ IH]; intros b Hb; [done|].
    cbn. apply IH. by apply step_holds_array. }
  destruct (proj1 (render_App_view a)) as [v Hv].
  { unfold render. rewrite Hl. by destruct (isLoading (stories a)). }
  by exists a, v.
Qed.

Lemma page_survives_array_hits_witness :
  let A := Story (PStr "1") "A" "a.org" "ann" 3 10 in
  ∃ a v,
    page (run (load ∅)
              [FetchResolved (VArray [A]); Dismiss A; SearchInput "Rocq";
               SearchSubmit; FetchRejected])
    = Some a
    ∧ App_view a = Returned v.
Proof.
  intros A. apply page_survives_array_hits.
  repeat (apply Forall_cons; split; [exact I|]). apply Forall_nil_2.
Defined.

(** X9.  A response whose [hits] is not an array: the reducer stores it,
    the list cannot be rendered, and the page is gone; no later event
    brings it back, and the storage stays as it was. *)
Theorem malformed_hits_unmount
    (a : app) (ls : gmap string string) (hits : value) (evs : list event) :
  (∀ l, hits ≠ VArray l) ->
  run (Browser (Some a) ls) (FetchResolved hits :: evs) = Browser None ls.
Proof.
  intros Hhits. cbn [run foldl].
  assert (step (Browser (Some a) ls) (FetchResolved hits) = Browser None ls)
    as ->.
  { unfold step, dispatchStories, render. cbn.
    destruct hits as [p|l|s]; [done| |done]. by destruct (Hhits l). }
  by apply run_unmounted.
Qed.

Lemma malformed_hits_unmount_witness :
  run (Browser (Some (App "React" (API_ENDPOINT +:+ "React")
                          (State (VArray []) true false)))
               {["search" := "React"]})
      [FetchResolved (VPrim PUndefined); SearchInput "Rocq"; SearchSubmit]
  = Browser None {["search" := "React"]}.
Proof. apply malformed_hits_unmount. discriminate. Defined.

(** Invariants of [step] are invariants of [run]. *)
Lemma run_invariant (P : browser -> Prop) :
  (∀ b e, P b -> P (step b e)) -> ∀ evs b, P b -> P (run b evs).
Proof.
  intros Hstep evs. induction evs as [|e evs IH]; intros b Hb; [done|].
  cbn. apply IH. by apply Hstep.
Qed.

Lemma submit_disabled_empty (a : app) :
  submit_disabled a = bool_decide (searchTerm a = "").
Proof. unfold submit_disabled. by destruct (searchTerm a). Qed.

(** What one event does to the URL of a page that survives it. *)
Lemma step_url (b : browser) (e : event) (a a' : app) :
  page b = Some a -> page (step b e) = Some a' ->
  url a' = match e with
           | SearchSubmit =>
               if decide (searchTerm a = "") then url a
               else API_ENDPOINT +:+ searchTerm a
           | _ => url a
           end.
Proof.
  intros Hb. unfold step. rewrite Hb.
  destruct e as [v| |item|hits|]; cbn [page];
    try (intros Hd; by apply dispatch_searchTerm in Hd as [_ ->]).
  - case_decide; [rewrite Hb|]; by intros [= <-].
  - rewrite submit_disabled_empty.
    destruct (decide (searchTerm a = "")) as [E|E].
    + rewrite bool_decide_eq_true_2 by done. rewrite Hb. by intros [= <-].
    + rewrite bool_decide_eq_false_2 by done. case_decide as Hurl.
      * rewrite Hb. intros [= <-]. by rewrite <- Hurl.
      * cbn [page]. intros Hd. by apply dispatch_searchTerm in Hd as [_ ->].
Qed.

Lemma run_url (evs : list event) (b : browser) (a0 a : app) (com : string) :
  page b = Some a0 -> url a0 = API_ENDPOINT +:+ com ->
  page (run b evs) = Some a ->
  url a = API_ENDPOINT +:+ committed_term (searchTerm a0) com evs.
Proof.
  revert b a0 com. induction evs as [|e evs IH]; intros b a0 com Hb Hcom Hrun.
  - cbn in Hrun. rewrite Hb in Hrun. by injection Hrun as <-.
  - cbn [run foldl] in Hrun. fold (run (step b e) evs) in Hrun.
    destruct (page (step b e)) as [a1|] eqn:Hstep.
    + pose proof (step_searchTerm b e a0 a1 Hb Hstep) as Hterm.
      pose proof (step_url b e a0 a1 Hb Hstep) as Hurl.
      destruct e as [v| |item|hits|]; cbn [last_term committed_term] in *;
        rewrite <- ?Hterm;
        try (eapply IH; [exact Hstep|congruence|exact Hrun]).
      eapply IH; [exact Hstep| |exact Hrun].
      rewrite Hurl, Hterm. by case_decide.
    + rewrite run_unmounted in Hrun by done. congruence.
Qed.

(** X10.  The URL of the page is the endpoint followed by the term of the
    last accepted submission (the initial term when there was none):
    typing changes the term and not the URL, and a submission of the empty
    term is ignored. *)
Theorem url_is_committed_term
    (ls : gmap string string) (evs : list event) (a : app) :
  page (run (load ls) evs) = Some a ->
  url a
  = "https://hn.algolia.com/api/v1/search?query="
    +:+ committed_term (initial_term ls) (initial_term ls) evs.
Proof.
  intros Ha.
  apply (run_url evs (load ls)
           (App (initial_term ls) (API_ENDPOINT +:+ initial_term ls)
                (State (VArray []) true false))); [|done|done].
  by rewrite load_page.
Qed.

Lemma url_is_committed_term_witness :
  let evs := [SearchInput "Roc"; SearchSubmit; SearchInput ""; SearchSubmit;
              FetchRejected; SearchInput "Rocq"] in
  let a := App "Rocq" (API_ENDPOINT +:+ "Roc") (State (VArray []) false true) in
  page (run (load ∅) evs) = Some a
  ∧ url a = "https://hn.algolia.com/api/v1/search?query=Roc".
Proof.
  intros evs a.
  assert (page (run (load ∅) evs) = Some a) as Ha by (vm_compute; reflexivity).
  split; [exact Ha|].
  exact (url_is_committed_term ∅ evs a Ha).
Defined.

Lemma step_storage_frame (b : browser) (e : event) (key : string) :
  key ≠ "search" -> localStorage (step b e) !! key = localStorage b !! key.
Proof.
  intros Hkey. destruct (page b) as [a|] eqn:Hb.
  - rewrite (step_localStorage b e a Hb).
    destruct e; try done. case_decide; [done|].
    by rewrite lookup_insert_ne.
  - by rewrite step_unmounted.
Qed.

(** X11.  The page writes under "search" and nowhere else: after a load
    and any sequence of events, every other key of the storage holds what
    it held before the load. *)
Theorem storage_other_keys_untouched
    (ls : gmap string string) (evs : list event) (key : string) :
  key ≠ "search" ->
  localStorage (run (load ls) evs) !! key = ls !! key.
Proof.
  intros Hkey.
  apply (run_invariant (fun b => localStorage b !! key = ls !! key)).
  - intros b e Hb. by rewrite step_storage_frame.
  - rewrite load_page. cbn. by rewrite lookup_insert_ne.
Qed.

Lemma storage_other_keys_untouched_witness :
  localStorage (run (load {["theme" := "dark"]})
                    [SearchInput "Rocq"; SearchSubmit; FetchRejected])
    !! "theme"
  = ({["theme" := "dark"]} : gmap string string) !! "theme".
Proof. apply storage_other_keys_untouched. discriminate. Defined.

(** The reducer never returns a state that is loading and in error. *)
Lemma reducer_flags (st st' : state) (act : action) :
  storiesReducer st act = Returned st' ->
  isLoading st && isError st = false ->
  isLoading st' && isError st' = false.
Proof.
  unfold storiesReducer. intros Hred Hflags.
  repeat (destruct (strict_eq (type act) _);
          [first [by injection Hred as <- | idtac]|]); [|done].
  destruct (call_filter _ _); [|done]. by injection Hred as <-.
Qed.

Lemma dispatch_flags (a a' : app) (act : action) :
  dispatchStories a act = Some a' ->
  isLoading (stories a) && isError (stories a) = false ->
  isLoading (stories a') && isError (stories a') = false.
Proof.
  unfold dispatchStories.
  destruct (storiesReducer _ _) as [st|] eqn:Hred; [|done].
  destruct (render _); [|done]. intros [= <-]. cbn.
  by apply (reducer_flags _ _ _ Hred).
Qed.

Lemma step_flags (b : browser) (e : event) :
  (∀ a, page b = Some a ->
        isLoading (stories a) && isError (stories a) = false) ->
  ∀ a', page (step b e) = Some a' ->
        isLoading (stories a') && isError (stories a') = false.
Proof.
  intros Hinv a'. destruct (page b) as [a|] eqn:Hb.
  - specialize (Hinv a eq_refl). unfold step. rewrite Hb.
    destruct e as [v| |item|hits|]; cbn [page];
      try (intros Hd; by apply (dispatch_flags _ _ _ Hd)).
    + case_decide; [rewrite Hb|]; by intros [= <-].
    + destruct (submit_disabled a); [rewrite Hb; by intros [= <-]|].
      case_decide; [rewrite Hb; by intros [= <-]|].
      cbn [page]. intros Hd. by apply (dispatch_flags _ _ _ Hd).
  - rewrite step_unmounted by done. rewrite Hb. done.
Qed.

(** X12.  The loading line and the error line are never shown together:
    on every page reached from a load, whatever the events, a view with
    the error message does not have the loading line as its content. *)
Theorem never_loading_and_error
    (ls : gmap string string) (evs : list event) (a : app) (v : view) :
  page (run (load ls) evs) = Some a ->
  App_view a = Returned v ->
  error_message v = true -> body v ≠ Loading.
Proof.
  intros Ha Hv Herr.
  assert (isLoading (stories a) && isError (stories a) = false) as Hflags.
  { clear Hv. revert a Ha.
    apply (run_invariant
             (fun b => ∀ a, page b = Some a ->
                            isLoading (stories a) && isError (stories a) = false)).
    - apply step_flags.
    - rewrite load_page. by intros a [= <-]. }
  unfold App_view in Hv.
  destruct (isLoading (stories a)); cbn in Hv.
  - injection Hv as <-. cbn in Herr. rewrite Herr in Hflags. done.
  - destruct (List _); cbn in Hv; [|done]. by injection Hv as <-.
Qed.

Lemma never_loading_and_error_witness :
  let evs := [SearchInput "Rocq"; SearchSubmit; FetchRejected] in
  let a := App "Rocq" (API_ENDPOINT +:+ "Rocq")
               (State (VArray []) false true) in
  page (run (load ∅) evs) = Some a
  ∧ App_view a = Returned (View "Rocq" false true (Listing []))
  ∧ Listing [] ≠ Loading.
Proof.
  intros evs a.
  assert (page (run (load ∅) evs) = Some a) as Ha by (vm_compute; reflexivity).
  split; [exact Ha|]. split; [reflexivity|].
  exact (never_loading_and_error ∅ evs a
           (View "Rocq" false true (Listing [])) Ha eq_refl eq_refl).
Defined.

(** X13.  Until a response arrives the page is loading: after a load and
    any events other than responses (typing, submissions, dismissals), the
    stories are still the empty collection with the loading flag set and
    no error, and the page shows the loading line. *)
Theorem loading_until_response (ls : gmap string string) (evs : list event) :
  Forall no_response evs ->
  ∃ a, page (run (load ls) evs) = Some a
       ∧ stories a = State (VArray []) true false
       ∧ App_view a
         = Returned (View (searchTerm a) (submit_disabled a) false Loading).
Proof.
  intros Hevs.
  assert (∃ a, page (run (load ls) evs) = Some a
               ∧ stories a = State (VArray []) true false) as (a & Ha & Hst).
  { assert (∃ a, page (load ls) = Some a
                 ∧ stories a = State (VArray []) true false) as Hload.
    { rewrite load_page. eauto. }
    revert Hload. generalize (load ls).
    induction Hevs as [|e evs He _ IH]; intros b Hb; [done|].
    cbn [run foldl]. apply IH. destruct Hb as (a & Hb & Hst).
    unfold step. rewrite Hb.
    destruct e as [v| |item|hits|]; try done.
    - case_decide; [eauto|]. eexists. split; [done|]. done.
    - destruct (submit_disabled a); [eauto|]. case_decide; [eauto|].
      rewrite dispatch_fetch_init. eexists. split; [done|].
      cbn. by rewrite Hst.
    - unfold dispatchStories. rewrite Hst. cbn. eauto. }
  exists a. split; [done|]. split; [done|].
  unfold App_view. by rewrite Hst.
Qed.

Lemma loading_until_response_witness :
  let A := Story (PStr "1") "A" "a.org" "ann" 3 10 in
  ∃ a, page (run (load ∅) [SearchInput "Rocq"; Dismiss A; SearchSubmit])
       = Some a
       ∧ stories a = State (VArray []) true false
       ∧ App_view a
         = Returned (View (searchTerm a) (submit_disabled a) false Loading).
Proof.
  intros A. apply loading_until_response.
  repeat (apply Forall_cons; split; [exact I|]). apply Forall_nil_2.
Defined.

(** X14.  A rejected request leaves the list on the screen: on a page whose
    collection is the array [l], after the rejection the page shows the
    error message above the rows of [l], in their order, and the input is
    as it was. *)
Theorem rejection_keeps_list
    (a : app) (ls : gmap string string) (l : list story) :
  data (stories a) = VArray l ->
  ∃ a', page (step (Browser (Some a) ls) FetchRejected) = Some a'
        ∧ App_view a'
          = Returned (View (searchTerm a) (submit_disabled a) true
                           (Listing (Item <$> l))).
Proof.
  destruct a as [t u [d ld er]]. cbn [data stories]. intros ->.
  eexists. split; reflexivity.
Qed.

Lemma rejection_keeps_list_witness :
  let A := Story (PStr "1") "A" "a.org" "ann" 3 10 in
  let a := App "Rocq" (API_ENDPOINT +:+ "Rocq") (State (VArray [A]) true false) in
  ∃ a', page (step (Browser (Some a) ∅) FetchRejected) = Some a'
        ∧ App_view a'
          = Returned (View "Rocq" false true
                           (Listing [Row (PStr "1") "a.org" "A" "ann" 3 10
                                         (Dismiss A)])).
Proof.
  intros A a. exact (rejection_keeps_list a ∅ [A] eq_refl).
Defined.

(** X15.  A submission starts a request only when it changes the URL:
    with a non-empty term, submitting the term that the URL already
    carries changes nothing, and submitting another one shows the loading
    line with the error message cleared, the collection being kept. *)
Theorem submit_fetches_on_new_url (a : app) (ls : gmap string string) :
  searchTerm a ≠ "" ->
  (url a = API_ENDPOINT +:+ searchTerm a ->
   step (Browser (Some a) ls) SearchSubmit = Browser (Some a) ls)
  ∧ (url a ≠ API_ENDPOINT +:+ searchTerm a ->
     ∃ a', step (Browser (Some a) ls) SearchSubmit = Browser (Some a') ls
           ∧ data (stories a') = data (stories a)
           ∧ App_view a'
             = Returned (View (searchTerm a) false false Loading)).
Proof.
  intros Hne.
  assert (submit_disabled a = false) as Hdis.
  { unfold submit_disabled. by rewrite truthy_nonempty. }
  unfold step. cbn [page localStorage]. rewrite Hdis. split; intros Hurl.
  - by rewrite decide_True.
  - rewrite decide_False by (cbn; congruence).
    rewrite dispatch_fetch_init. eexists. split; [done|]. split; [done|].
    unfold App_view, submit_disabled. cbn -[truthy].
    by rewrite truthy_nonempty.
Qed.

Lemma submit_fetches_on_new_url_witness :
  let A := Story (PStr "1") "A" "a.org" "ann" 3 10 in
  let a := App "Rocq" (API_ENDPOINT +:+ "React") (State (VArray [A]) false true) in
  let a' := App "Rocq" (API_ENDPOINT +:+ "Rocq") (State (VArray [A]) true false) in
  (∃ a'', step (Browser (Some a) ∅) SearchSubmit = Browser (Some a'') ∅
          ∧ data (stories a'') = VArray [A]
          ∧ App_view a'' = Returned (View "Rocq" false false Loading))
  ∧ step (Browser (Some a') ∅) SearchSubmit = Browser (Some a') ∅.
Proof.
  intros A a a'.
  assert (searchTerm a ≠ "") as Hne by (cbn; discriminate).
  assert (searchTerm a' ≠ "") as Hne' by (cbn; discriminate).
  split.
  - apply (submit_fetches_on_new_url a ∅ Hne). cbn. discriminate.
  - apply (submit_fetches_on_new_url a' ∅ Hne'). reflexivity.
Defined.

(** The rows of the collection without an identifier are the rows whose
    key is not that identifier. *)
Lemma Item_without_id (X : prim) (l : list story) :
  Item <$> without_id X l
  = filter (fun r => row_key r ≠ X) (Item <$> l).
Proof.
  induction l as [|s l IH]; [done|].
  cbn [without_id]. rewrite fmap_cons, filter_cons. cbn [Item row_key].
  destruct (decide (objectID s = X)) as [E|E].
  - rewrite decide_False by (intros H; by apply H). done.
  - rewrite decide_True by done. by rewrite fmap_cons, IH.
Qed.

(** X16.  The Dismiss button of a row among those that [App] returns:
    after the click, [App] returns the rows whose [key] attribute (the
    story's [objectID]) is not strictly equal to that of the clicked row,
    in the order they had; the clicked row is not among them, and the
    input value, the [disabled] attribute and the error line are as before.
    This is about the elements that [App] returns; how React turns them
    into the document is not part of the model. *)
Theorem dismiss_removes_rows
    (a : app) (ls : gmap string string) (v : view) (rows : list row) (r : row) :
  App_view a = Returned v -> body v = Listing rows -> r ∈ rows ->
  ∃ a' rows',
    step (Browser (Some a) ls) (on_dismiss r) = Browser (Some a') ls
    ∧ App_view a'
      = Returned (View (input_value v) (button_disabled v) (error_message v)
                       (Listing rows'))
    ∧ rows' = filter (fun r' => row_key r' ≠ row_key r) rows
    ∧ r ∉ rows'.
Proof.
  destruct a as [t u [d ld er]]. unfold App_view. cbn [stories isLoading].
  intros Hv Hbody Hr.
  destruct ld; cbn in Hv; [injection Hv as <-; discriminate Hbody|].
  destruct d as [p|l|s]; cbn in Hv; [done| |done].
  injection Hv as <-. cbn in Hbody. injection Hbody as <-.
  apply list_elem_of_fmap in Hr as (s & -> & Hs).
  cbn [on_dismiss Item row_key input_value button_disabled error_message].
  unfold step, dispatchStories. cbn [page stories localStorage].
  rewrite reducer_remove. cbn.
  eexists _, _. split; [done|]. split; [done|].
  split; [apply Item_without_id|].
  rewrite Item_without_id. intros Hin.
  apply list_elem_of_filter in Hin as [Hkey _]. by apply Hkey.
Qed.

Lemma dismiss_removes_rows_witness :
  let A := Story (PStr "1") "A" "a.org" "ann" 3 10 in
  let B := Story (PStr "2") "B" "b.org" "bob" 0 7 in
  let C := Story (PStr "3") "C" "c.org" "cy" 1 1 in
  let a := App "Rocq" (API_ENDPOINT +:+ "Rocq")
               (State (VArray [A; B; C]) false false) in
  ∃ a' rows',
    step (Browser (Some a) ∅) (Dismiss B) = Browser (Some a') ∅
    ∧ App_view a' = Returned (View "Rocq" false false (Listing rows'))
    ∧ rows' = filter (fun r' => row_key r' ≠ PStr "2") [Item A; Item B; Item C]
    ∧ Item B ∉ rows'.
Proof.
  intros A B C a.
  apply (dismiss_removes_rows a ∅
           (View "Rocq" false false (Listing [Item A; Item B; Item C]))
           [Item A; Item B; Item C] (Item B)).
  - reflexivity.
  - reflexivity.
  - apply elem_of_cons. right. apply elem_of_cons. by left.
Defined.

(** ** The committed term and the storage *)





